(** * whatsapp/transcribe.py: a command-line driver around Whisper

    The script reads [sys.argv], checks that an audio path was given, loads
    a Whisper model, transcribes the audio with the language pinned to
    English and prints the stripped text of the result.

    The embedding follows the script statement by statement in a small
    monad that carries the chronological trace of observable events (calls
    into the [whisper] module together with what they returned or raised,
    lines written by [print], and a [print] that raised) and a signal for
    abrupt termination ([sys.exit] or an exception that nothing catches).

    Scope of the model: a run starts once [import sys] and [import whisper]
    (lines 3-4) have bound the two modules; the [whisper] module is the
    parameter [Whisper] below.  Its functions are taken as they are seen
    from the script: they return a value or raise (any exception,
    [SystemExit] and [KeyboardInterrupt] included), and they do not write
    to standard output.  Standard output is the parameter [Console]: an
    open text stream that takes every write it can encode and whose codec,
    with the default strict error handling, raises [UnicodeEncodeError]
    on the code points it cannot encode. *)

From Stdlib Require Import List String Ascii NArith ZArith Bool Arith Lia.
Import ListNotations.

(** ** Python strings *)

Module PyStr.

(** A Python [str] is a sequence of Unicode code points. *)
Definition char : Type := N.
Definition str : Type := list char.

(** An ASCII literal of the source as a [str]. *)
Definition lit (s : string) : str :=
  List.map N_of_ascii (list_ascii_of_string s).

(** The line terminator that [print] appends. *)
Definition newline : str := [10%N].

(** [str.isspace] on one code point: the code points CPython lists in
    [_PyUnicode_IsWhitespace]. *)
Definition isspace (c : char) : bool :=
  (((0x09 <=? c) && (c <=? 0x0D))
   || ((0x1C <=? c) && (c <=? 0x20))
   || (c =? 0x85) || (c =? 0xA0) || (c =? 0x1680)
   || ((0x2000 <=? c) && (c <=? 0x200A))
   || (c =? 0x2028) || (c =? 0x2029) || (c =? 0x202F)
   || (c =? 0x205F) || (c =? 0x3000))%N.

(** [s.lstrip()]: drop the leading run of whitespace. *)
Fixpoint lstrip (s : str) : str :=
  match s with
  | [] => []
  | c :: s' => if isspace c then lstrip s' else s
  end.

(** [s.rstrip()]: drop the trailing run of whitespace. *)
Definition rstrip (s : str) : str := rev (lstrip (rev s)).

(** [s.strip()] with no argument: both ends. *)
Definition strip (s : str) : str := rstrip (lstrip s).

Definition str_eqb (a b : str) : bool :=
  if list_eq_dec N.eq_dec a b then true else false.

End PyStr.
Export PyStr.

(** ** Exceptions and the [whisper] module *)

(** An exception other than [SystemExit]: its class and its message
    ([RuntimeError], [FileNotFoundError], [IndexError],
    [KeyboardInterrupt], ...). *)
Record exn : Type := Exn { exn_class : string; exn_msg : string }.

Definition IndexError : exn := Exn "IndexError" "list index out of range".

(** Abrupt termination: [SystemExit], whose [code] is the process status
    its argument stands for (the argument itself in [sys.exit(1)]), or any
    other propagating exception. *)
Inductive signal : Type :=
| SystemExit (code : Z)
| Raised (e : exn).

(** What a call yields: a signal raised, or a value returned. *)
Definition result_of (A : Type) : Type := (signal + A)%type.

(** The part of the [whisper] module the script uses.
    - [load_model name] is [whisper.load_model(name)];
    - [transcribe m audio language] is [m.transcribe(audio, language=language)];
    - [text r] is [r["text"]], the transcript held by the result. *)
Class Whisper : Type := {
  Model : Type;
  Result : Type;
  load_model : str -> result_of Model;
  transcribe : Model -> str -> str -> result_of Result;
  text : Result -> str
}.

(** [sys.stdout] as the script finds it.
    - [encodable c]: the stream's codec can encode the code point [c],
      asked for the code points beyond ASCII;
    - [encode_error s]: the [UnicodeEncodeError] the codec raises on a
      string [s] it cannot encode. *)
Class Console : Type := {
  encodable : char -> bool;
  encode_error : str -> exn
}.

(** What the stream can write: ASCII, which every codec of a terminal or
    a pipe encodes, and what the codec encodes beyond it. *)
Definition can_encode {C : Console} (c : char) : bool :=
  (c <? 128)%N || encodable c.

(** ** Events, signals and the script monad *)

Section Script.

Context {W : Whisper}.

(** Observable events, each call recorded with its outcome: a call into
    [whisper] with what it returned or raised, a line that [print] wrote,
    a line on which [print] raised (nothing is written then). *)
Inductive event : Type :=
| LoadModel (name : str) (res : result_of Model)
| Transcribe (m : Model) (audio language : str) (res : result_of Result)
| PrintLine (line : str)
| PrintFailed (line : str).

Definition trace : Type := list event.

(** A statement transforms the trace and either completes with a value
    or stops with a signal. *)
Definition M (A : Type) : Type := trace -> (signal + A) * trace.

Definition ret {A} (a : A) : M A := fun t => (inr a, t).

Definition bind {A B} (c : M A) (k : A -> M B) : M B :=
  fun t =>
    match c t with
    | (inl s, t') => (inl s, t')
    | (inr a, t') => k a t'
    end.

Definition emit (e : event) : M unit := fun t => (inr tt, t ++ [e]).

Definition stop {A} (s : signal) : M A := fun t => (inl s, t).

(** Lift the outcome of a call: what it raised propagates. *)
Definition lift {A} (r : result_of A) : M A :=
  match r with
  | inl s => stop s
  | inr a => ret a
  end.

End Script.

Declare Scope py_scope.
Delimit Scope py_scope with py.
Notation "x <- c ;; k" := (bind c (fun x => k))
  (at level 61, c at next level, right associativity) : py_scope.
Notation "c ;; k" := (bind c (fun _ => k))
  (at level 61, right associativity) : py_scope.
Local Open Scope py_scope.

Section Program.

Context {W : Whisper} {C : Console}.

(** *** Built-ins used by the script *)

(** [print(s)]: [sys.stdout.write(s)], then the newline.  The stream
    encodes [s] as a whole before it keeps any of it, so a string with a
    code point the codec cannot encode raises [UnicodeEncodeError] and
    leaves standard output as it was. *)
Definition print (s : str) : M unit :=
  if forallb can_encode s then emit (PrintLine s)
  else emit (PrintFailed s) ;; stop (Raised (encode_error s)).

(** [sys.exit(code)]: raises [SystemExit]. *)
Definition sys_exit {A} (code : Z) : M A := stop (SystemExit code).

(** [l[i]] on a list: [IndexError] when [i] is out of range. *)
Definition getitem (l : list str) (i : nat) : M str :=
  match nth_error l i with
  | Some x => ret x
  | None => stop (Raised IndexError)
  end.

(** [whisper.load_model(name)] *)
Definition whisper_load_model (name : str) : M Model :=
  let r := load_model name in
  emit (LoadModel name r) ;; lift r.

(** [model.transcribe(audio, language=language)] *)
Definition model_transcribe (m : Model) (audio language : str) : M Result :=
  let r := transcribe m audio language in
  emit (Transcribe m audio language r) ;; lift r.

(** *** The script *)

Definition usage : str := lit "Usage: python transcribe.py <audio_file>".

(** Lines 6-8. *)
Definition usage_check (argv : list str) : M unit :=
  if List.length argv <? 2 then
    print usage ;;
    sys_exit 1
  else ret tt.

(** Line 11: [sys.argv[2] if len(sys.argv) > 2 else "base"]. *)
Definition model_name_of (argv : list str) : M str :=
  if 2 <? List.length argv then getitem argv 2 else ret (lit "base").

(** Lines 6-20. *)
Definition main (argv : list str) : M unit :=
  usage_check argv ;;
  audio_path <- getitem argv 1 ;;
  model_name <- model_name_of argv ;;
  model <- whisper_load_model model_name ;;
  result <- model_transcribe model audio_path (lit "en") ;;
  print (strip (text result)).

(** *** Running the script as a process *)

Definition run (argv : list str) : (signal + unit) * trace := main argv [].

Definition outcome (argv : list str) : signal + unit := fst (run argv).
Definition events (argv : list str) : trace := snd (run argv).

(** The interpreter's exit status: 0 when the module body completes, the
    code of a [SystemExit], 130 when [KeyboardInterrupt] reaches the top
    (the interpreter ends on SIGINT), 1 for any other exception that
    nothing caught. *)
Definition exit_status (o : signal + unit) : Z :=
  match o with
  | inr _ => 0
  | inl (SystemExit code) => code
  | inl (Raised e) =>
      if String.eqb (exn_class e) "KeyboardInterrupt" then 130 else 1
  end%Z.

(** *** Observations on a trace *)

(** Everything written to standard output, in order. *)
Fixpoint stdout (t : trace) : str :=
  match t with
  | [] => []
  | PrintLine s :: t' => s ++ newline ++ stdout t'
  | _ :: t' => stdout t'
  end.

(** The lines printed. *)
Fixpoint printed (t : trace) : list str :=
  match t with
  | [] => []
  | PrintLine s :: t' => s :: printed t'
  | _ :: t' => printed t'
  end.

(** The identifiers passed to the model loader. *)
Fixpoint loader_calls (t : trace) : list str :=
  match t with
  | [] => []
  | LoadModel name _ :: t' => name :: loader_calls t'
  | _ :: t' => loader_calls t'
  end.

(** The (audio path, language) pairs passed to the transcription call. *)
Fixpoint transcribe_calls (t : trace) : list (str * str) :=
  match t with
  | [] => []
  | Transcribe _ audio language _ :: t' => (audio, language) :: transcribe_calls t'
  | _ :: t' => transcribe_calls t'
  end.

(** A delegate call in the trace raised the exception [e]. *)
Definition delegate_raised (e : exn) (t : trace) : Prop :=
  (exists name, In (LoadModel name (inl (Raised e))) t)
  \/ (exists m audio language,
        In (Transcribe m audio language (inl (Raised e))) t).

(** The four ways a run can go once the usage check has passed, for the
    audio path [audio] and the model identifier [name]. *)
Inductive run_shape (audio name : str) : (signal + unit) * trace -> Prop :=
| LoadRaised (s : signal) :
    load_model name = inl s ->
    run_shape audio name (inl s, [LoadModel name (inl s)])
| TranscribeRaised (m : Model) (s : signal) :
    load_model name = inr m ->
    transcribe m audio (lit "en") = inl s ->
    run_shape audio name
      (inl s,
       [LoadModel name (inr m); Transcribe m audio (lit "en") (inl s)])
| PrintRaised (m : Model) (r : Result) :
    load_model name = inr m ->
    transcribe m audio (lit "en") = inr r ->
    forallb can_encode (strip (text r)) = false ->
    run_shape audio name
      (inl (Raised (encode_error (strip (text r)))),
       [LoadModel name (inr m); Transcribe m audio (lit "en") (inr r);
        PrintFailed (strip (text r))])
| Transcribed (m : Model) (r : Result) :
    load_model name = inr m ->
    transcribe m audio (lit "en") = inr r ->
    forallb can_encode (strip (text r)) = true ->
    run_shape audio name
      (inr tt,
       [LoadModel name (inr m); Transcribe m audio (lit "en") (inr r);
        PrintLine (strip (text r))]).

(** The full call sequence: one model load, one transcription of
    [sys.argv[1]], one print, and nothing else. *)
Definition full_sequence (argv : list str) : Prop :=
  exists name lres m language tres line,
    events argv
    = [LoadModel name lres; Transcribe m (nth 1 argv []) language tres;
       PrintLine line].

End Program.

(** ** A concrete [whisper] for running the script

    Two models are known, ["base"] and ["large"]; one audio file exists,
    ["speech.wav"], whose transcript comes back padded with whitespace. *)

Module Demo.

Definition known_model (name : str) : bool :=
  str_eqb name (lit "base") || str_eqb name (lit "large").

Definition demo_load (name : str) : result_of str :=
  if known_model name then inr name
  else inl (Raised (Exn "RuntimeError" "Model not found")).

(** The raw transcript: space, no-break space, the words, space, newline. *)
Definition speech_text : str := [32; 0xA0]%N ++ lit "hello there" ++ [32; 10]%N.

Definition demo_transcribe (m audio language : str) : result_of str :=
  if str_eqb audio (lit "speech.wav")
  then inr speech_text
  else inl (Raised (Exn "RuntimeError" "Failed to load audio")).

Definition demo : Whisper := {|
  Model := str;
  Result := str;
  load_model := demo_load;
  transcribe := demo_transcribe;
  text := fun r => r
|}.

Definition prog : str := lit "transcribe.py".
Definition speech : str := lit "speech.wav".
Definition missing : str := lit "missing.wav".

End Demo.

(** ** Two standard outputs

    A UTF-8 stream encodes every code point but the surrogates; an ASCII
    stream (the C locale) encodes nothing beyond the first 128. *)

Module Utf8.

Definition utf8_encodable (c : char) : bool :=
  ((c <? 0xD800) || ((0xDFFF <? c) && (c <=? 0x10FFFF)))%N.

Definition console : Console := {|
  encodable := utf8_encodable;
  encode_error := fun _ =>
    Exn "UnicodeEncodeError" "'utf-8' codec can't encode: surrogates not allowed"
|}.

End Utf8.

Module Ascii7.

Definition ascii_encodable (c : char) : bool := false.

Definition console : Console := {|
  encodable := ascii_encodable;
  encode_error := fun _ =>
    Exn "UnicodeEncodeError" "'ascii' codec can't encode: ordinal not in range(128)"
|}.

End Ascii7.

(** ** A [whisper] that hears music

    Every model name loads, and every audio file transcribes to a note
    sign (U+266A) after a space. *)

Module Music.

Definition note_text : str := [0x20; 0x266A]%N.

Definition whisper : Whisper := {|
  Model := unit;
  Result := str;
  load_model := fun _ => inr tt;
  transcribe := fun _ _ _ => inr note_text;
  text := fun r => r
|}.

Definition prog : str := lit "transcribe.py".
Definition song : str := lit "song.wav".

End Music.

(** Concrete runs below resolve the [whisper] module to [Demo.demo] and
    standard output to [Utf8.console]; inside a statement that binds its
    own [W : Whisper] and [C : Console], those are used. *)
#[global] Existing Instance Demo.demo.
#[global] Existing Instance Utf8.console.

(** A string with no whitespace at either end (the empty string included). *)
Definition clean_ends (s : str) : bool :=
  match s with
  | [] => true
  | c :: _ => negb (isspace c) && negb (isspace (last s c))
  end.

(** ** A [whisper] that hears nothing

    Every model name loads, and every audio file transcribes to a text
    made of whitespace only: space, newline, ideographic space. *)

Module Quiet.

Definition blank_text : str := [0x20; 0x0A; 0x3000]%N.

Definition silent : Whisper := {|
  Model := unit;
  Result := str;
  load_model := fun _ => inr tt;
  transcribe := fun _ _ _ => inr blank_text;
  text := fun r => r
|}.

End Quiet.

(** ** Strings: what [strip] removes *)

Section StripFacts.

Lemma lstrip_split (s : str) :
  exists pre, s = pre ++ lstrip s /\ forallb isspace pre = true.
Proof.
  induction s as [|c s IH]; simpl.
  - exists []. split; reflexivity.
  - destruct (isspace c) eqn:Hc.
    + destruct IH as (pre & Hs & Hpre).
      exists (c :: pre). simpl. rewrite Hc, Hpre. split; [f_equal; exact Hs | reflexivity].
    + exists []. split; reflexivity.
Qed.

Lemma lstrip_head (s : str) (c : char) (r : str) :
  lstrip s = c :: r -> isspace c = false.
Proof.
  induction s as [|d s IH]; simpl; [discriminate|].
  destruct (isspace d) eqn:Hd; [exact IH|].
  intros E. injection E as -> _. exact Hd.
Qed.

Lemma lstrip_snoc (s : str) (c : char) :
  isspace c = false -> lstrip (s ++ [c]) = lstrip s ++ [c].
Proof.
  intros Hc. induction s as [|d s IH]; simpl.
  - now rewrite Hc.
  - destruct (isspace d); [exact IH | reflexivity].
Qed.

Lemma rstrip_split (s : str) :
  exists post, s = rstrip s ++ post /\ forallb isspace post = true.
Proof.
  unfold rstrip. destruct (lstrip_split (rev s)) as (pre & Hs & Hpre).
  exists (rev pre). split.
  - rewrite <- rev_app_distr, <- Hs. symmetry. apply rev_involutive.
  - rewrite forallb_forall in *. intros x Hx. apply Hpre.
    now apply in_rev.
Qed.

Lemma rstrip_last (s : str) (r : str) (c : char) :
  rstrip s = r ++ [c] -> isspace c = false.
Proof.
  unfold rstrip. intros E.
  apply (f_equal (@rev char)) in E.
  rewrite rev_involutive, rev_app_distr in E. simpl in E.
  exact (lstrip_head _ _ _ E).
Qed.

Lemma rstrip_cons (c : char) (s : str) :
  isspace c = false -> rstrip (c :: s) = c :: rstrip s.
Proof.
  intros Hc. unfold rstrip. simpl.
  rewrite (lstrip_snoc (rev s) c Hc), rev_app_distr. reflexivity.
Qed.

Lemma strip_split (s : str) :
  exists pre post,
    s = pre ++ strip s ++ post
    /\ forallb isspace pre = true /\ forallb isspace post = true.
Proof.
  destruct (lstrip_split s) as (pre & Hs & Hpre).
  destruct (rstrip_split (lstrip s)) as (post & Hl & Hpost).
  exists pre, post. unfold strip. rewrite <- Hl. auto.
Qed.

Lemma strip_head (s : str) (c : char) (r : str) :
  strip s = c :: r -> isspace c = false.
Proof.
  unfold strip. destruct (lstrip s) as [|d l] eqn:El.
  - discriminate.
  - pose proof (lstrip_head _ _ _ El) as Hd.
    rewrite (rstrip_cons d l Hd). intros E. injection E as -> _. exact Hd.
Qed.

Lemma strip_last (s : str) (r : str) (c : char) :
  strip s = r ++ [c] -> isspace c = false.
Proof. unfold strip. apply rstrip_last. Qed.

End StripFacts.

(** ** The script monad is a monad *)

Section MonadLaws.

Context {W : Whisper}.

Lemma bind_ret_l {A B} (a : A) (k : A -> M B) (t : trace) :
  bind (ret a) k t = k a t.
Proof. reflexivity. Qed.

Lemma bind_ret_r {A} (c : M A) (t : trace) :
  bind c ret t = c t.
Proof. unfold bind, ret. destruct (c t) as [[s|a] t']; reflexivity. Qed.

Lemma bind_assoc {A B C} (c : M A) (k : A -> M B) (h : B -> M C) (t : trace) :
  bind (bind c k) h t = bind c (fun a => bind (k a) h) t.
Proof. unfold bind. destruct (c t) as [[s|a] t']; reflexivity. Qed.

(** Once a statement has stopped, what follows is skipped. *)
Lemma bind_stop {A B} (s : signal) (k : A -> M B) (t : trace) :
  bind (stop s) k t = (inl s, t).
Proof. reflexivity. Qed.

End MonadLaws.

(** ** How a run unfolds *)

Section RunFacts.

Context {W : Whisper} {C : Console}.

(** A string of ASCII code points can be written to any standard output. *)
Lemma ascii_can_encode (s : str) :
  forallb (fun c => (c <? 128)%N) s = true -> forallb can_encode s = true.
Proof.
  rewrite !forallb_forall. intros H c Hc.
  unfold can_encode. now rewrite (H c Hc).
Qed.

Lemma print_usage (t : trace) :
  print usage t = (inr tt, t ++ [PrintLine usage]).
Proof.
  unfold print. now rewrite (ascii_can_encode usage eq_refl).
Qed.

Lemma usage_check_short (argv : list str) (t : trace) :
  List.length argv < 2 ->
  usage_check argv t = (inl (SystemExit 1), t ++ [PrintLine usage]).
Proof.
  intros H. unfold usage_check.
  apply Nat.ltb_lt in H. rewrite H.
  unfold bind. now rewrite print_usage.
Qed.

Lemma usage_check_pass (argv : list str) (t : trace) :
  2 <= List.length argv -> usage_check argv t = (inr tt, t).
Proof.
  intros H. unfold usage_check.
  apply Nat.ltb_ge in H. rewrite H. reflexivity.
Qed.

(** The conditional expression of line 11 never raises. *)
Lemma model_name_of_total (argv : list str) (t : trace) :
  model_name_of argv t = (inr (nth 2 argv (lit "base")), t).
Proof.
  unfold model_name_of, getitem.
  destruct (2 <? List.length argv) eqn:E.
  - apply Nat.ltb_lt in E.
    destruct (nth_error argv 2) as [x|] eqn:Hn.
    + now rewrite (nth_error_nth argv 2 (lit "base") Hn).
    + apply nth_error_None in Hn. lia.
  - apply Nat.ltb_ge in E. now rewrite (nth_overflow argv (lit "base") E).
Qed.

Lemma run_usage (argv : list str) :
  List.length argv < 2 -> run argv = (inl (SystemExit 1), [PrintLine usage]).
Proof.
  intros H. unfold run, main, bind.
  now rewrite (usage_check_short argv [] H).
Qed.

Lemma run_past_check (argv : list str) :
  2 <= List.length argv ->
  run_shape (nth 1 argv []) (nth 2 argv (lit "base")) (run argv).
Proof.
  intros H. unfold run, main, bind at 1.
  rewrite (usage_check_pass argv [] H).
  destruct argv as [|p [|a rest]]; simpl in H; try lia.
  unfold bind at 1. cbn [getitem nth_error ret].
  unfold bind at 1. rewrite model_name_of_total.
  cbn [nth]. set (name := nth 0 rest (lit "base")).
  unfold whisper_load_model, model_transcribe, print, bind, emit, lift, stop, ret.
  cbn [app].
  destruct (load_model name) as [s|m] eqn:Hl.
  - now constructor.
  - destruct (transcribe m a (lit "en")) as [s|r] eqn:Ht.
    + now constructor.
    + destruct (forallb can_encode (strip (text r))) eqn:He; cbn [app].
      * now constructor.
      * now constructor.
Qed.

(** Every run is either the usage error or one of the four shapes. *)
Lemma run_cases (argv : list str) :
  (List.length argv < 2 /\ run argv = (inl (SystemExit 1), [PrintLine usage]))
  \/ (2 <= List.length argv
      /\ run_shape (nth 1 argv []) (nth 2 argv (lit "base")) (run argv)).
Proof.
  destruct (Nat.lt_ge_cases (List.length argv) 2) as [H|H].
  - left. split; [exact H | now apply run_usage].
  - right. split; [exact H | now apply run_past_check].
Qed.

(** An exception that nothing caught never gives status 0. *)
Lemma exit_status_raised (e : exn) : exit_status (inl (Raised e)) <> 0%Z.
Proof.
  simpl. destruct (String.eqb (exn_class e) "KeyboardInterrupt"); discriminate.
Qed.

End RunFacts.

(** Case analysis on a run: the usage error, then the four shapes. *)
Ltac run_analysis argv :=
  let H := fresh "Hlen" in
  let R := fresh "Hrun" in
  let S := fresh "Hshape" in
  let Hl := fresh "Hload" in
  let Ht := fresh "Htrans" in
  let He := fresh "Henc" in
  let s := fresh "sig" in
  let m := fresh "mdl" in
  let r := fresh "res" in
  destruct (run_cases argv) as [[H R]|[H S]];
  [ unfold events, outcome; rewrite R
  | unfold events, outcome;
    inversion S as [s Hl R | m s Hl Ht R | m r Hl Ht He R | m r Hl Ht He R];
    clear S ];
  cbn [fst snd].

(** ** The usage error *)

(** C1: with fewer than one positional argument (only the program name, or
    an empty [sys.argv]) the program prints exactly the usage string and
    exits with status 1; the model loader and the transcription step are
    not called and no transcript is printed. *)
Theorem usage_error_without_audio_path `{W : Whisper} `{C : Console}
    (argv : list str) :
  List.length argv < 2 ->
  events argv = [PrintLine (lit "Usage: python transcribe.py <audio_file>")]
  /\ stdout (events argv)
     = lit "Usage: python transcribe.py <audio_file>" ++ newline
  /\ exit_status (outcome argv) = 1%Z
  /\ loader_calls (events argv) = []
  /\ transcribe_calls (events argv) = [].
Proof.
  intros H. unfold events, outcome. rewrite (run_usage argv H).
  repeat split.
Qed.

Lemma usage_error_without_audio_path_witness :
  List.length [Demo.prog] < 2
  /\ (events [Demo.prog]
        = [PrintLine (lit "Usage: python transcribe.py <audio_file>")]
      /\ stdout (events [Demo.prog])
         = lit "Usage: python transcribe.py <audio_file>" ++ newline
      /\ exit_status (outcome [Demo.prog]) = 1%Z
      /\ loader_calls (events [Demo.prog]) = []
      /\ transcribe_calls (events [Demo.prog]) = []).
Proof.
  split.
  - simpl. lia.
  - apply (usage_error_without_audio_path [Demo.prog]). simpl. lia.
Defined.

(** ** The transcript on standard output *)

(** C2, as stated, fails: the transcription returns a note sign, standard
    output is an ASCII stream, [print] raises on the stripped text and
    standard output stays empty. *)
Lemma stdout_empty_when_transcript_not_encodable :
  2 <= List.length [Music.prog; Music.song]
  /\ In (Transcribe (W := Music.whisper) tt Music.song (lit "en")
           (inr Music.note_text))
        (events (W := Music.whisper) (C := Ascii7.console)
           [Music.prog; Music.song])
  /\ stdout (events (W := Music.whisper) (C := Ascii7.console)
               [Music.prog; Music.song])
     <> strip Music.note_text ++ newline.
Proof.
  split; [simpl; lia|].
  split; [vm_compute; right; left; reflexivity|].
  vm_compute. discriminate.
Qed.

(** C2, amended: when the first argument is present, the transcription
    returned a result and standard output can encode the stripped text,
    standard output is the [text] field of the result with its leading and
    trailing whitespace removed, then one newline, and nothing else.  The
    stripped text is what is left of the field once a whitespace-only
    prefix and a whitespace-only suffix are cut, and it neither starts nor
    ends with whitespace. *)
Theorem stdout_is_stripped_text `{W : Whisper} `{C : Console}
    (argv : list str) (m : Model) (audio language : str) (r : Result) :
  2 <= List.length argv ->
  In (Transcribe m audio language (inr r)) (events argv) ->
  forallb can_encode (strip (text r)) = true ->
  stdout (events argv) = strip (text r) ++ newline
  /\ (exists pre post,
         text r = pre ++ strip (text r) ++ post
         /\ forallb isspace pre = true /\ forallb isspace post = true)
  /\ (forall c s, strip (text r) = c :: s -> isspace c = false)
  /\ (forall s c, strip (text r) = s ++ [c] -> isspace c = false).
Proof.
  intros Hargs Hin Henc.
  split; [| split; [apply strip_split | split; [apply strip_head | apply strip_last]]].
  revert Hin. run_analysis argv; simpl.
  - lia.
  - intros [E|[]]. discriminate E.
  - intros [E|[E|[]]]; discriminate E.
  - intros [E|[E|[E|[]]]]; try discriminate E.
    injection E as _ _ _ ->. congruence.
  - intros [E|[E|[E|[]]]]; try discriminate E.
    injection E as _ _ _ ->. reflexivity.
Qed.

Lemma stdout_is_stripped_text_witness :
  2 <= List.length [Demo.prog; Demo.speech]
  /\ In (Transcribe (W := Demo.demo) (lit "base") Demo.speech (lit "en")
           (inr Demo.speech_text))
        (events [Demo.prog; Demo.speech])
  /\ forallb can_encode (strip Demo.speech_text) = true
  /\ stdout (events [Demo.prog; Demo.speech]) = lit "hello there" ++ newline.
Proof.
  split; [simpl; lia|].
  split; [vm_compute; right; left; reflexivity|].
  split; [reflexivity|].
  apply (stdout_is_stripped_text (W := Demo.demo) [Demo.prog; Demo.speech]
           (lit "base") Demo.speech (lit "en") Demo.speech_text).
  - simpl; lia.
  - vm_compute. right. left. reflexivity.
  - reflexivity.
Defined.

(** ** What is passed to the delegates *)

(** C3: with an audio path and no second positional argument, the model
    loader is called with the identifier ["base"]. *)
Theorem default_model_is_base `{W : Whisper} `{C : Console} (argv : list str) :
  List.length argv = 2 ->
  loader_calls (events argv) = [lit "base"].
Proof.
  intros H.
  assert (Hname : nth 2 argv (lit "base") = lit "base")
    by (apply nth_overflow; lia).
  run_analysis argv; try lia; rewrite Hname; reflexivity.
Qed.

Lemma default_model_is_base_witness :
  List.length [Demo.prog; Demo.speech] = 2
  /\ loader_calls (events [Demo.prog; Demo.speech]) = [lit "base"].
Proof.
  split.
  - reflexivity.
  - apply (default_model_is_base [Demo.prog; Demo.speech]). reflexivity.
Defined.

(** C4: with an audio path and an explicit second positional argument, the
    model loader is called with exactly that string, whatever it is. *)
Theorem explicit_model_is_forwarded `{W : Whisper} `{C : Console}
    (argv : list str) (name : str) :
  nth_error argv 2 = Some name ->
  loader_calls (events argv) = [name].
Proof.
  intros H.
  assert (Hlen : 2 < List.length argv)
    by (apply nth_error_Some; rewrite H; discriminate).
  rewrite <- (nth_error_nth argv 2 (lit "base") H).
  run_analysis argv; try lia; reflexivity.
Qed.

Lemma explicit_model_is_forwarded_witness :
  nth_error [Demo.prog; Demo.speech; lit "large"] 2 = Some (lit "large")
  /\ loader_calls (events [Demo.prog; Demo.speech; lit "large"]) = [lit "large"].
Proof.
  split.
  - reflexivity.
  - apply (explicit_model_is_forwarded [Demo.prog; Demo.speech; lit "large"]).
    reflexivity.
Defined.

(** C5: whenever the transcription call is reached, its language parameter
    is ["en"], whatever the command line was. *)
Theorem language_is_english `{W : Whisper} `{C : Console} (argv : list str)
    (m : Model) (audio language : str) (res : result_of Result) :
  In (Transcribe m audio language res) (events argv) ->
  language = lit "en".
Proof.
  run_analysis argv; simpl; intros Hin;
    repeat (destruct Hin as [E|Hin]; [try discriminate E|]);
    try contradiction;
    injection E as _ _ <- _; reflexivity.
Qed.

Lemma language_is_english_witness :
  In (Transcribe (W := Demo.demo) (lit "large") Demo.missing (lit "en")
        (inl (Raised (Exn "RuntimeError" "Failed to load audio"))))
     (events [Demo.prog; Demo.missing; lit "large"; lit "fr"])
  /\ lit "en" = lit "en".
Proof.
  assert (H : In (Transcribe (W := Demo.demo) (lit "large") Demo.missing (lit "en")
                    (inl (Raised (Exn "RuntimeError" "Failed to load audio"))))
                 (events [Demo.prog; Demo.missing; lit "large"; lit "fr"]))
    by (vm_compute; right; left; reflexivity).
  split.
  - exact H.
  - exact (language_is_english (W := Demo.demo) _ _ _ _ _ H).
Defined.

(** ** Failure and success of the delegates *)

(** C6: when the model-loading or the transcription call raises, the
    exception is not caught: it reaches the process boundary, the exit
    status is non-zero and nothing has been printed. *)
Theorem delegate_failure_aborts `{W : Whisper} `{C : Console}
    (argv : list str) (e : exn) :
  delegate_raised e (events argv) ->
  outcome argv = inl (Raised e)
  /\ exit_status (outcome argv) <> 0%Z
  /\ printed (events argv) = []
  /\ stdout (events argv) = [].
Proof.
  unfold delegate_raised.
  run_analysis argv; cbn [In];
    intros [(n & Hin)|(m & a & l & Hin)];
    repeat (destruct Hin as [E|Hin]; [try discriminate E|]);
    try contradiction;
    injection E; intros; subst;
    (split; [reflexivity | split; [apply exit_status_raised | split; reflexivity]]).
Qed.

Lemma delegate_failure_aborts_witness :
  delegate_raised (Exn "RuntimeError" "Failed to load audio")
    (events [Demo.prog; Demo.missing])
  /\ outcome [Demo.prog; Demo.missing]
     = inl (Raised (Exn "RuntimeError" "Failed to load audio"))
  /\ exit_status (outcome [Demo.prog; Demo.missing]) <> 0%Z
  /\ printed (events [Demo.prog; Demo.missing]) = []
  /\ stdout (events [Demo.prog; Demo.missing]) = [].
Proof.
  assert (H : delegate_raised (Exn "RuntimeError" "Failed to load audio")
                (events [Demo.prog; Demo.missing])).
  { right. exists (lit "base"), Demo.missing, (lit "en").
    vm_compute. right. left. reflexivity. }
  split.
  - exact H.
  - exact (delegate_failure_aborts [Demo.prog; Demo.missing] _ H).
Defined.

(** C7, as stated, fails: both delegate calls return, yet the program
    ends with status 1 and an empty standard output, because [print]
    raises on a transcript the ASCII stream cannot encode. *)
Lemma delegates_succeed_yet_exit_one :
  2 <= List.length [Music.prog; Music.song]
  /\ In (LoadModel (W := Music.whisper) (lit "base") (inr tt))
        (events (W := Music.whisper) (C := Ascii7.console)
           [Music.prog; Music.song])
  /\ In (Transcribe (W := Music.whisper) tt Music.song (lit "en")
           (inr Music.note_text))
        (events (W := Music.whisper) (C := Ascii7.console)
           [Music.prog; Music.song])
  /\ exit_status (outcome (W := Music.whisper) (C := Ascii7.console)
                    [Music.prog; Music.song]) = 1%Z
  /\ stdout (events (W := Music.whisper) (C := Ascii7.console)
               [Music.prog; Music.song]) = [].
Proof.
  split; [simpl; lia|].
  split; [vm_compute; left; reflexivity|].
  split; [vm_compute; right; left; reflexivity|].
  split; reflexivity.
Qed.

(** C7, amended: when the argument check passes, both delegate calls
    return and standard output can encode the stripped text, the
    transcript is printed to standard output, the print is the last thing
    the program does, and the exit status is 0. *)
Theorem success_exits_zero `{W : Whisper} `{C : Console} (argv : list str)
    (name audio language : str) (m m' : Model) (r : Result) :
  2 <= List.length argv ->
  In (LoadModel name (inr m)) (events argv) ->
  In (Transcribe m' audio language (inr r)) (events argv) ->
  forallb can_encode (strip (text r)) = true ->
  exit_status (outcome argv) = 0%Z
  /\ stdout (events argv) = strip (text r) ++ newline
  /\ exists before, events argv = before ++ [PrintLine (strip (text r))].
Proof.
  intros Hargs. run_analysis argv; simpl; try lia; intros _ Hin Henc'.
  - destruct Hin as [E|[]]. discriminate E.
  - destruct Hin as [E|[E|[]]]; discriminate E.
  - destruct Hin as [E|[E|[E|[]]]]; try discriminate E.
    injection E as _ _ _ <-. congruence.
  - destruct Hin as [E|[E|[E|[]]]]; try discriminate E.
    injection E as _ _ _ <-.
    repeat split.
    eexists [_; _]. reflexivity.
Qed.

Lemma success_exits_zero_witness :
  2 <= List.length [Demo.prog; Demo.speech; lit "large"]
  /\ In (LoadModel (W := Demo.demo) (lit "large") (inr (lit "large")))
        (events [Demo.prog; Demo.speech; lit "large"])
  /\ In (Transcribe (W := Demo.demo) (lit "large") Demo.speech (lit "en")
           (inr Demo.speech_text))
        (events [Demo.prog; Demo.speech; lit "large"])
  /\ forallb can_encode (strip Demo.speech_text) = true
  /\ exit_status (outcome [Demo.prog; Demo.speech; lit "large"]) = 0%Z
  /\ stdout (events [Demo.prog; Demo.speech; lit "large"])
     = lit "hello there" ++ newline.
Proof.
  assert (Hl : In (LoadModel (W := Demo.demo) (lit "large") (inr (lit "large")))
                  (events [Demo.prog; Demo.speech; lit "large"]))
    by (vm_compute; left; reflexivity).
  assert (Ht : In (Transcribe (W := Demo.demo) (lit "large") Demo.speech (lit "en")
                     (inr Demo.speech_text))
                  (events [Demo.prog; Demo.speech; lit "large"]))
    by (vm_compute; right; left; reflexivity).
  assert (Ha : 2 <= List.length [Demo.prog; Demo.speech; lit "large"])
    by (simpl; lia).
  assert (He : forallb can_encode (strip Demo.speech_text) = true)
    by reflexivity.
  pose proof (success_exits_zero (W := Demo.demo) _ _ _ _ _ _ _ Ha Hl Ht He)
    as (Hs & Ho & _).
  repeat split; assumption.
Defined.

(** ** Order of the calls *)

Section Order.

Context {W : Whisper} {C : Console}.

(** A run that got past the usage check is determined by the audio path
    and the model identifier. *)
Lemma run_shape_functional (audio name : str) (x y : (signal + unit) * trace) :
  run_shape audio name x -> run_shape audio name y -> x = y.
Proof.
  intros Hx Hy.
  destruct Hx as [s Hl | m s Hl Ht | m r Hl Ht He | m r Hl Ht He];
    destruct Hy as [s' Hl' | m' s' Hl' Ht' | m' r' Hl' Ht' He' | m' r' Hl' Ht' He'];
    rewrite Hl in Hl'; try discriminate Hl';
    injection Hl' as <-; try reflexivity;
    rewrite Ht in Ht'; try discriminate Ht';
    injection Ht' as <-; try reflexivity;
    rewrite He in He'; discriminate He'.
Qed.

(** What the positional arguments look like from their first two slots. *)
Lemma nth_of_nth_error (argv1 argv2 : list str) (i : nat) (d : str) :
  nth_error argv1 i = nth_error argv2 i -> nth i argv1 d = nth i argv2 d.
Proof.
  intros H.
  destruct (nth_error argv1 i) as [x|] eqn:E1.
  - symmetry in H.
    now rewrite (nth_error_nth argv1 i d E1), (nth_error_nth argv2 i d H).
  - symmetry in H.
    apply nth_error_None in E1. apply nth_error_None in H.
    now rewrite (nth_overflow argv1 d E1), (nth_overflow argv2 d H).
Qed.

Lemma short_iff_no_audio (argv : list str) :
  List.length argv < 2 <-> nth_error argv 1 = None.
Proof. rewrite nth_error_None. lia. Qed.

End Order.

(** C8, as stated, fails: asked for a model the loader does not know, the
    program makes the load call and stops; there is no transcription call
    and no print, although the first argument is present. *)
Lemma full_sequence_fails_when_load_raises :
  2 <= List.length [Demo.prog; Demo.speech; lit "huge"]
  /\ ~ full_sequence [Demo.prog; Demo.speech; lit "huge"].
Proof.
  split; [simpl; lia|].
  intros (name & lres & m & language & tres & line & E).
  vm_compute in E. discriminate E.
Qed.

(** C8, amended: when the first argument is present, the first event is
    the one model-load call; a transcription call follows exactly when the
    load returned a model, it is the only one, it is made on that model
    with [sys.argv[1]] as the audio path; a print call follows exactly
    when the transcription returned a result, it is made on the stripped
    text of that result and it is the last event: it writes the line when
    standard output can encode it and raises otherwise.  So transcription
    never precedes loading, printing never precedes the end of
    transcription, and the sequence load, transcription, printed line is
    complete exactly on the runs that end normally. *)
Theorem calls_in_strict_order `{W : Whisper} `{C : Console} (argv : list str) :
  2 <= List.length argv ->
  (exists name lres rest,
      events argv = LoadModel name lres :: rest
      /\ match lres with
         | inl _ => rest = []
         | inr m =>
             exists tres rest',
               rest = Transcribe m (nth 1 argv []) (lit "en") tres :: rest'
               /\ match tres with
                  | inl _ => rest' = []
                  | inr r =>
                      rest' = [if forallb can_encode (strip (text r))
                               then PrintLine (strip (text r))
                               else PrintFailed (strip (text r))]
                  end
         end)
  /\ (full_sequence argv <-> outcome argv = inr tt).
Proof.
  intros Hargs. unfold full_sequence.
  run_analysis argv; try lia.
  - split.
    + exists (nth 2 argv (lit "base")), (inl sig), []. split; reflexivity.
    + split; [intros (? & ? & ? & ? & ? & ? & E) | intros E]; discriminate E.
  - split.
    + exists (nth 2 argv (lit "base")), (inr mdl),
        [Transcribe mdl (nth 1 argv []) (lit "en") (inl sig)].
      split; [reflexivity|].
      exists (inl sig), []. split; reflexivity.
    + split; [intros (? & ? & ? & ? & ? & ? & E) | intros E]; discriminate E.
  - split.
    + exists (nth 2 argv (lit "base")), (inr mdl),
        [Transcribe mdl (nth 1 argv []) (lit "en") (inr res);
         PrintFailed (strip (text res))].
      split; [reflexivity|].
      exists (inr res), [PrintFailed (strip (text res))].
      split; [reflexivity|]. now rewrite Henc.
    + split; [intros (? & ? & ? & ? & ? & ? & E) | intros E]; discriminate E.
  - split.
    + exists (nth 2 argv (lit "base")), (inr mdl),
        [Transcribe mdl (nth 1 argv []) (lit "en") (inr res);
         PrintLine (strip (text res))].
      split; [reflexivity|].
      exists (inr res), [PrintLine (strip (text res))].
      split; [reflexivity|]. now rewrite Henc.
    + split; [reflexivity|]. intros _.
      now exists (nth 2 argv (lit "base")), (inr mdl), mdl, (lit "en"), (inr res),
        (strip (text res)).
Qed.

Lemma calls_in_strict_order_witness :
  2 <= List.length [Demo.prog; Demo.speech]
  /\ full_sequence [Demo.prog; Demo.speech].
Proof.
  split; [simpl; lia|].
  apply (calls_in_strict_order [Demo.prog; Demo.speech]).
  - simpl; lia.
  - reflexivity.
Defined.

(** ** Arguments the script does not look at *)

(** C9: two command lines that agree on their first two positional
    arguments run alike: the same identifier goes to the model loader, the
    same audio path to the transcription call, and the run ends the same
    way, so surplus arguments raise no error of their own. *)
Theorem surplus_arguments_ignored `{W : Whisper} `{C : Console}
    (argv1 argv2 : list str) :
  nth_error argv1 1 = nth_error argv2 1 ->
  nth_error argv1 2 = nth_error argv2 2 ->
  loader_calls (events argv1) = loader_calls (events argv2)
  /\ transcribe_calls (events argv1) = transcribe_calls (events argv2)
  /\ run argv1 = run argv2.
Proof.
  intros H1 H2.
  assert (E : run argv1 = run argv2).
  { destruct (run_cases argv1) as [[L1 R1]|[L1 S1]];
      destruct (run_cases argv2) as [[L2 R2]|[L2 S2]].
    - now rewrite R1, R2.
    - apply short_iff_no_audio in L1. rewrite L1 in H1. symmetry in H1.
      apply short_iff_no_audio in H1. lia.
    - apply short_iff_no_audio in L2. rewrite L2 in H1.
      apply short_iff_no_audio in H1. lia.
    - rewrite (nth_of_nth_error argv1 argv2 1 [] H1) in S1.
      rewrite (nth_of_nth_error argv1 argv2 2 (lit "base") H2) in S1.
      exact (run_shape_functional _ _ _ _ S1 S2). }
  unfold events. rewrite E. repeat split.
Qed.

Lemma surplus_arguments_ignored_witness :
  nth_error [Demo.prog; Demo.speech; lit "large"] 1
  = nth_error [lit "t.py"; Demo.speech; lit "large"; lit "extra"; []] 1
  /\ nth_error [Demo.prog; Demo.speech; lit "large"] 2
     = nth_error [lit "t.py"; Demo.speech; lit "large"; lit "extra"; []] 2
  /\ run [Demo.prog; Demo.speech; lit "large"]
     = run [lit "t.py"; Demo.speech; lit "large"; lit "extra"; []].
Proof.
  split; [reflexivity|]. split; [reflexivity|].
  apply (surplus_arguments_ignored
           [Demo.prog; Demo.speech; lit "large"]
           [lit "t.py"; Demo.speech; lit "large"; lit "extra"; []]);
    reflexivity.
Defined.

(** C10: the usage check looks at the number of arguments only.  Any
    command line with at least one positional argument passes it, an empty
    string included: the second slot, or ["base"], goes verbatim to the
    model loader and the first slot verbatim to the transcription call
    once a model is loaded; and when a delegate raises on what it was
    given, that exception ends the run as it is, with nothing printed: it
    is a propagated delegate failure, not the usage error. *)
Theorem usage_check_counts_only `{W : Whisper} `{C : Console} (argv : list str) :
  2 <= List.length argv ->
  (forall argv' t, List.length argv' = List.length argv ->
                   usage_check argv' t = usage_check argv t
                   /\ usage_check argv' t = (inr tt, t))
  /\ loader_calls (events argv) = [nth 2 argv (lit "base")]
  /\ (forall m, In (LoadModel (nth 2 argv (lit "base")) (inr m)) (events argv) ->
                transcribe_calls (events argv) = [(nth 1 argv [], lit "en")])
  /\ (forall e, delegate_raised e (events argv) ->
                outcome argv = inl (Raised e)
                /\ outcome argv <> inl (SystemExit 1)
                /\ printed (events argv) = []).
Proof.
  intros Hargs. split.
  { intros argv' t E.
    rewrite (usage_check_pass argv t Hargs). split; apply usage_check_pass; lia. }
  unfold delegate_raised. run_analysis argv; try lia; cbn [In loader_calls transcribe_calls printed].
  - repeat split.
    + intros m [E|[]]. discriminate E.
    + destruct H as [(n & [E|[]])|(m & a & l & [E|[]])]; try discriminate E.
      injection E as _ ->. reflexivity.
    + destruct H as [(n & [E|[]])|(m & a & l & [E|[]])]; try discriminate E.
      injection E as _ ->. discriminate.
  - repeat split.
    + destruct H as [(n & [E|[E|[]]])|(m & a & l & [E|[E|[]]])];
        try discriminate E.
      injection E as _ _ _ ->. reflexivity.
    + destruct H as [(n & [E|[E|[]]])|(m & a & l & [E|[E|[]]])];
        try discriminate E.
      injection E as _ _ _ ->. discriminate.
  - repeat split;
      destruct H as [(n & [E|[E|[E|[]]]])|(m & a & l & [E|[E|[E|[]]]])];
      discriminate E.
  - repeat split;
      destruct H as [(n & [E|[E|[E|[]]]])|(m & a & l & [E|[E|[E|[]]]])];
      discriminate E.
Qed.

Lemma usage_check_counts_only_witness :
  2 <= List.length [Demo.prog; []]
  /\ usage_check [Demo.prog; []] [] = (inr tt, [])
  /\ loader_calls (events [Demo.prog; []]) = [lit "base"]
  /\ transcribe_calls (events [Demo.prog; []]) = [([], lit "en")]
  /\ outcome [Demo.prog; []]
     = inl (Raised (Exn "RuntimeError" "Failed to load audio"))
  /\ printed (events [Demo.prog; []]) = [].
Proof.
  assert (Ha : 2 <= List.length [Demo.prog; []]) by (simpl; lia).
  destruct (usage_check_counts_only (W := Demo.demo) [Demo.prog; []] Ha)
    as (Hc & Hl & Ht & Hf).
  assert (Hd : delegate_raised (Exn "RuntimeError" "Failed to load audio")
                 (events [Demo.prog; []])).
  { right. exists (lit "base"), [], (lit "en").
    vm_compute. right. left. reflexivity. }
  destruct (Hf _ Hd) as (Ho & _ & Hp).
  split; [exact Ha|]. split; [|split; [|split; [|split]]].
  - exact (proj2 (Hc [Demo.prog; []] [] eq_refl)).
  - exact Hl.
  - apply (Ht (lit "base")). vm_compute. left. reflexivity.
  - exact Ho.
  - exact Hp.
Defined.

(** ** Concrete runs *)

(** [transcribe.py speech.wav] *)
Example run_speech :
  run [Demo.prog; Demo.speech]
  = (inr tt,
     [LoadModel (lit "base") (inr (lit "base"));
      Transcribe (W := Demo.demo) (lit "base") Demo.speech (lit "en")
        (inr Demo.speech_text);
      PrintLine (lit "hello there")]).
Proof. vm_compute. reflexivity. Qed.

(** [transcribe.py speech.wav large] *)
Example run_speech_large :
  loader_calls (events [Demo.prog; Demo.speech; lit "large"]) = [lit "large"]
  /\ stdout (events [Demo.prog; Demo.speech; lit "large"])
     = lit "hello there" ++ newline
  /\ exit_status (outcome [Demo.prog; Demo.speech; lit "large"]) = 0%Z.
Proof. vm_compute. repeat split. Qed.

(** [transcribe.py] *)
Example run_no_argument :
  run [Demo.prog] = (inl (SystemExit 1), [PrintLine usage]).
Proof. vm_compute. reflexivity. Qed.

(** [transcribe.py missing.wav] *)
Example run_missing_file :
  run [Demo.prog; Demo.missing]
  = (inl (Raised (Exn "RuntimeError" "Failed to load audio")),
     [LoadModel (lit "base") (inr (lit "base"));
      Transcribe (W := Demo.demo) (lit "base") Demo.missing (lit "en")
        (inl (Raised (Exn "RuntimeError" "Failed to load audio")))]).
Proof. vm_compute. reflexivity. Qed.

(** [transcribe.py speech.wav] followed by an empty model name: the empty
    string reaches the loader. *)
Example run_empty_model_name :
  run [Demo.prog; Demo.speech; []]
  = (inl (Raised (Exn "RuntimeError" "Model not found")),
     [LoadModel (W := Demo.demo) []
        (inl (Raised (Exn "RuntimeError" "Model not found")))]).
Proof. vm_compute. reflexivity. Qed.

(** [strip] on the sample transcript: the no-break space goes too. *)
Example strip_speech_text : strip Demo.speech_text = lit "hello there".
Proof. vm_compute. reflexivity. Qed.

(** [transcribe.py song.wav] on an ASCII standard output: both calls
    return, [print] raises, nothing is written. *)
Example run_song_on_ascii :
  run (W := Music.whisper) (C := Ascii7.console) [Music.prog; Music.song]
  = (inl (Raised (Exn "UnicodeEncodeError"
                    "'ascii' codec can't encode: ordinal not in range(128)")),
     [LoadModel (W := Music.whisper) (lit "base") (inr tt);
      Transcribe (W := Music.whisper) tt Music.song (lit "en")
        (inr Music.note_text);
      PrintFailed [0x266A%N]]).
Proof. vm_compute. reflexivity. Qed.

(** The same on a UTF-8 standard output: the note is printed. *)
Example run_song_on_utf8 :
  stdout (events (W := Music.whisper) (C := Utf8.console)
            [Music.prog; Music.song])
  = [0x266A; 10]%N.
Proof. vm_compute. reflexivity. Qed.

(** ** More on [strip]: it is determined by its two cuts *)

Section StripUnique.

Lemma lstrip_app_space (pre s : str) :
  forallb isspace pre = true -> lstrip (pre ++ s) = lstrip s.
Proof.
  induction pre as [|c pre IH]; simpl; [reflexivity|].
  intros H. apply andb_prop in H as [Hc Hpre].
  rewrite Hc. now apply IH.
Qed.

Lemma lstrip_all_space (s : str) :
  forallb isspace s = true -> lstrip s = [].
Proof.
  intros H. rewrite <- (app_nil_r s). now rewrite lstrip_app_space.
Qed.

Lemma forallb_isspace_rev (s : str) :
  forallb isspace s = true -> forallb isspace (rev s) = true.
Proof.
  rewrite !forallb_forall. intros H x Hx. apply H. now apply in_rev.
Qed.

Lemma rstrip_app_space (s post : str) :
  forallb isspace post = true -> rstrip (s ++ post) = rstrip s.
Proof.
  intros H. unfold rstrip. rewrite rev_app_distr.
  now rewrite (lstrip_app_space (rev post) (rev s) (forallb_isspace_rev post H)).
Qed.

Lemma last_cons_default (s : str) (c d e : char) :
  last (c :: s) d = last (c :: s) e.
Proof.
  revert c. induction s as [|y s IH]; intros c.
  - reflexivity.
  - change (last (c :: y :: s) d) with (last (y :: s) d).
    change (last (c :: y :: s) e) with (last (y :: s) e).
    apply IH.
Qed.

Lemma clean_ends_last (s : str) (c d : char) :
  clean_ends (c :: s) = true -> isspace (last (c :: s) d) = false.
Proof.
  unfold clean_ends. intros H. apply andb_prop in H as [_ H].
  apply negb_true_iff in H.
  now rewrite (last_cons_default s c d c).
Qed.

Lemma rstrip_clean (s : str) : clean_ends s = true -> rstrip s = s.
Proof.
  destruct s as [|c s]; [reflexivity|]. intros H.
  pose proof (clean_ends_last s c c H) as Hl.
  destruct (exists_last (l := c :: s)) as (init & z & E); [discriminate|].
  rewrite E in Hl |- *. rewrite last_last in Hl.
  unfold rstrip. rewrite rev_app_distr. simpl. rewrite Hl.
  simpl. now rewrite rev_involutive.
Qed.

(** [strip] returns the core of any split of the string into a
    whitespace-only prefix, a core with clean ends and a whitespace-only
    suffix. *)
Lemma strip_unique (pre core post : str) :
  forallb isspace pre = true ->
  forallb isspace post = true ->
  clean_ends core = true ->
  strip (pre ++ core ++ post) = core.
Proof.
  intros Hpre Hpost Hcore. unfold strip.
  rewrite (lstrip_app_space pre _ Hpre).
  destruct core as [|c core].
  - simpl. now rewrite (lstrip_all_space post Hpost).
  - assert (Hc : isspace c = false).
    { unfold clean_ends in Hcore. apply andb_prop in Hcore as [Hc _].
      now apply negb_true_iff in Hc. }
    change ((c :: core) ++ post) with (c :: (core ++ post)).
    cbn [lstrip]. rewrite Hc.
    change (c :: core ++ post) with ((c :: core) ++ post).
    rewrite (rstrip_app_space _ post Hpost).
    now apply rstrip_clean.
Qed.

End StripUnique.

(** ** The run that reaches a transcript *)

Section Transcript.

Context {W : Whisper} {C : Console}.

(** A transcription call that returned a text standard output can encode
    is followed by the print, and that is the whole run. *)
Lemma transcribed_run (argv : list str) (m : Model) (audio language : str)
    (r : Result) :
  In (Transcribe m audio language (inr r)) (events argv) ->
  forallb can_encode (strip (text r)) = true ->
  run argv
  = (inr tt,
     [LoadModel (nth 2 argv (lit "base")) (inr m);
      Transcribe m (nth 1 argv []) (lit "en") (inr r);
      PrintLine (strip (text r))]).
Proof.
  unfold events. intros Hin Henc. revert Hin.
  destruct (run_cases argv) as [[_ R]|[_ S]].
  - rewrite R. simpl. intros [E|[]]. discriminate E.
  - inversion S as [s Hl R | m0 s Hl Ht R | m0 r0 Hl Ht He R | m0 r0 Hl Ht He R];
      simpl.
    + intros [E|[]]. discriminate E.
    + intros [E|[E|[]]]; discriminate E.
    + intros [E|[E|[E|[]]]]; try discriminate E.
      injection E as _ _ _ ->. congruence.
    + intros [E|[E|[E|[]]]]; try discriminate E.
      injection E as -> _ _ ->. reflexivity.
Qed.

End Transcript.

(** ** What a caller of the script can observe *)

(** X1: naming the default model changes nothing.  A command line with
    just an audio path and the same command line followed by ["base"]
    (and anything after it) give the same run: same calls, same output,
    same end. *)
Theorem explicit_base_is_default `{W : Whisper} `{C : Console}
    (argv rest : list str) :
  List.length argv = 2 ->
  run (argv ++ lit "base" :: rest) = run argv.
Proof.
  intros H.
  destruct argv as [|p [|a [|x argv]]]; simpl in H; try discriminate H.
  assert (H1 : 2 <= List.length ([p; a] ++ lit "base" :: rest)) by (simpl; lia).
  assert (H2 : 2 <= List.length [p; a]) by (simpl; lia).
  pose proof (run_past_check _ H1) as S1.
  pose proof (run_past_check _ H2) as S2.
  exact (run_shape_functional _ _ _ _ S1 S2).
Qed.

Lemma explicit_base_is_default_witness :
  List.length [Demo.prog; Demo.speech] = 2
  /\ run ([Demo.prog; Demo.speech] ++ lit "base" :: [lit "more"])
     = run [Demo.prog; Demo.speech].
Proof.
  split.
  - reflexivity.
  - apply (explicit_base_is_default [Demo.prog; Demo.speech] [lit "more"]).
    reflexivity.
Defined.

(** X3: standard output is empty exactly when an audio path was given
    and the run ended abnormally (a delegate raised, or [print] raised on
    a transcript standard output cannot encode).  The usage error and the
    run that ends normally each write a line. *)
Theorem stdout_empty_iff_failed_past_check `{W : Whisper} `{C : Console}
    (argv : list str) :
  stdout (events argv) = []
  <-> 2 <= List.length argv /\ exists s, outcome argv = inl s.
Proof.
  run_analysis argv; simpl.
  - split; [intros E; discriminate E | intros [H _]; lia].
  - split; [intros _ | reflexivity]. split; [exact Hlen | now exists sig].
  - split; [intros _ | reflexivity]. split; [exact Hlen | now exists sig].
  - split; [intros _ | reflexivity].
    split; [exact Hlen | now eexists].
  - split.
    + intros E. destruct (strip (text res)); discriminate E.
    + intros [_ (s & E)]. discriminate E.
Qed.

(** X4: interior whitespace survives.  When the text of the result splits
    into a whitespace-only prefix, a core with no whitespace at either end
    and a whitespace-only suffix, and standard output can encode the core,
    standard output is that core followed by one newline. *)
Theorem transcript_core_is_printed `{W : Whisper} `{C : Console}
    (argv : list str) (m : Model) (audio language : str) (r : Result)
    (pre core post : str) :
  In (Transcribe m audio language (inr r)) (events argv) ->
  text r = pre ++ core ++ post ->
  forallb isspace pre = true ->
  forallb isspace post = true ->
  clean_ends core = true ->
  forallb can_encode core = true ->
  stdout (events argv) = core ++ newline.
Proof.
  intros Hin Ht Hpre Hpost Hcore Henc.
  assert (Hs : strip (text r) = core)
    by (rewrite Ht; exact (strip_unique pre core post Hpre Hpost Hcore)).
  assert (He : forallb can_encode (strip (text r)) = true)
    by (rewrite Hs; exact Henc).
  unfold events. rewrite (transcribed_run argv m audio language r Hin He).
  simpl. now rewrite Hs.
Qed.

Lemma transcript_core_is_printed_witness :
  In (Transcribe (W := Demo.demo) (lit "base") Demo.speech (lit "en")
        (inr Demo.speech_text))
     (events [Demo.prog; Demo.speech])
  /\ Demo.speech_text = [32; 0xA0]%N ++ lit "hello there" ++ [32; 10]%N
  /\ forallb isspace [32; 0xA0]%N = true
  /\ forallb isspace [32; 10]%N = true
  /\ clean_ends (lit "hello there") = true
  /\ forallb can_encode (lit "hello there") = true
  /\ stdout (events [Demo.prog; Demo.speech]) = lit "hello there" ++ newline.
Proof.
  assert (Hin : In (Transcribe (W := Demo.demo) (lit "base") Demo.speech (lit "en")
                      (inr Demo.speech_text))
                   (events [Demo.prog; Demo.speech]))
    by (vm_compute; right; left; reflexivity).
  split; [exact Hin|].
  split; [reflexivity|]. split; [reflexivity|]. split; [reflexivity|].
  split; [reflexivity|]. split; [reflexivity|].
  apply (transcript_core_is_printed (W := Demo.demo) [Demo.prog; Demo.speech]
           (lit "base") Demo.speech (lit "en") Demo.speech_text
           [32; 0xA0]%N (lit "hello there") [32; 10]%N Hin);
    reflexivity.
Defined.

(** X5: a transcript made of whitespace only (the empty one included)
    comes out as one empty line, and the run still ends with status 0. *)
Theorem blank_transcript_prints_empty_line `{W : Whisper} `{C : Console}
    (argv : list str) (m : Model) (audio language : str) (r : Result) :
  In (Transcribe m audio language (inr r)) (events argv) ->
  forallb isspace (text r) = true ->
  stdout (events argv) = newline
  /\ printed (events argv) = [[]]
  /\ exit_status (outcome argv) = 0%Z.
Proof.
  intros Hin Hblank.
  assert (Hs : strip (text r) = []).
  { rewrite <- (app_nil_r (text r)).
    exact (strip_unique (text r) [] [] Hblank eq_refl eq_refl). }
  assert (He : forallb can_encode (strip (text r)) = true)
    by (rewrite Hs; reflexivity).
  unfold events, outcome.
  rewrite (transcribed_run argv m audio language r Hin He).
  simpl. rewrite Hs. repeat split.
Qed.

Lemma blank_transcript_prints_empty_line_witness :
  In (Transcribe (W := Quiet.silent) tt (lit "room.wav") (lit "en")
        (inr Quiet.blank_text))
     (events (W := Quiet.silent) [lit "transcribe.py"; lit "room.wav"])
  /\ forallb isspace Quiet.blank_text = true
  /\ stdout (events (W := Quiet.silent) [lit "transcribe.py"; lit "room.wav"])
     = newline
  /\ printed (events (W := Quiet.silent) [lit "transcribe.py"; lit "room.wav"])
     = [[]]
  /\ exit_status (outcome (W := Quiet.silent) [lit "transcribe.py"; lit "room.wav"])
     = 0%Z.
Proof.
  assert (Hin : In (Transcribe (W := Quiet.silent) tt (lit "room.wav") (lit "en")
                      (inr Quiet.blank_text))
                   (events (W := Quiet.silent)
                      [lit "transcribe.py"; lit "room.wav"]))
    by (vm_compute; right; left; reflexivity).
  split; [exact Hin|]. split; [reflexivity|].
  exact (blank_transcript_prints_empty_line (W := Quiet.silent)
           [lit "transcribe.py"; lit "room.wav"] tt (lit "room.wav") (lit "en")
           Quiet.blank_text Hin eq_refl).
Defined.

